(** * BBP Pairings: the common interface of the Swiss systems

    A shallow embedding of [src/swisssystems/common.h]: the two exception
    types, the [Pairing] structure with its two constructors, the [Info]
    interface with its default [updateAccelerations], and
    [colorPreferencesAreCompatible].

    The header only declares [findFirstColorDifference] and [sortResults];
    their bodies, and the header [tournament/tournament.h], are not part of
    the sources at hand.  Those parts are modelled from the specification,
    and every such definition says so.  [computeMatching] is pure virtual
    and no class that overrides it is at hand: it stays a field of [Info],
    and nothing is proved about what it returns.

    Layout: the definitions come first, module by module; the theorems
    follow. *)

From Stdlib Require Import String.
From Stdlib Require Import List Bool Arith Lia.
From Stdlib Require Import Permutation Sorted.
Import ListNotations.

Set Implicit Arguments.

(* ===================================================================== *)
(** * tournament/tournament.h: the types the header consumes             *)
(* ===================================================================== *)

Module tournament.

(** Modelled from the spec: [tournament::player_index] is declared in
    tournament/tournament.h, which is missing.  The spec calls it "a dense,
    stable integer handle into the tournament's player collection". *)
Definition player_index := nat.

(** Modelled from the spec: [tournament::Color] is declared in
    tournament/tournament.h, which is missing.  The spec has "Color:
    enumerated {WHITE, BLACK, NONE}"; the header at hand names
    [COLOR_WHITE] and [COLOR_NONE]. *)
Inductive Color : Set := COLOR_WHITE | COLOR_BLACK | COLOR_NONE.

(** [operator==] on the enumeration. *)
Definition Color_eqb (a b : Color) : bool :=
  match a, b with
  | COLOR_WHITE, COLOR_WHITE
  | COLOR_BLACK, COLOR_BLACK
  | COLOR_NONE, COLOR_NONE => true
  | _, _ => false
  end.

(** Modelled from the spec: the result of a past game; the type is
    declared in the missing tournament/tournament.h. *)
Inductive GameResult : Set := RESULT_LOSS | RESULT_DRAW | RESULT_WIN.

(** Modelled from the spec: one entry of a player's "full list of past
    pairings (opponent, color, result)"; the structure is declared in the
    missing tournament/tournament.h. *)
Record Game : Set := mkGame
  { opponent : player_index;
    color : Color;
    result : GameResult }.

(** Modelled from the spec: [tournament::Player], declared in the missing
    tournament/tournament.h.  The spec lists "current score, full list of
    past pairings, ... bye history, due color preference"; the score that
    the partitioner reads is the score "post-acceleration", so the bonus
    is kept beside it.  The history is an "append-only ordered sequence":
    the earliest round is the head of the list. *)
Record Player : Set := mkPlayer
  { score : nat;
    acceleration : nat;
    history : list Game;
    byes : nat;
    dueColor : Color;
    active : bool;
    rank : nat }.

(** Modelled from the spec: [tournament::Tournament], declared in the
    missing tournament/tournament.h: "the aggregate of all Players plus
    global configuration".  A [player_index] is a position in [players];
    no modelled operation reads the configuration, which is left out. *)
Record Tournament : Set := mkTournament
  { players : list Player }.

(** Modelled from the spec: what a handle past the end of the collection
    reads.  Such handles are "programming errors" for the spec; here they
    read a withdrawn player without score or history. *)
Definition absentPlayer : Player :=
  {| score := 0; acceleration := 0; history := []; byes := 0;
     dueColor := COLOR_NONE; active := false; rank := 0 |}.

(** Modelled from the spec: the lookup of a handle in "the tournament's
    player collection". *)
Definition player (t : Tournament) (i : player_index) : Player :=
  nth i (players t) absentPlayer.

(** Modelled from the spec: the "round-by-round color history" of a
    player, earliest round first. *)
Definition colorHistory (p : Player) : list Color :=
  map color (history p).

End tournament.

Import tournament.

(* ===================================================================== *)
(** * swisssystems/common.h                                               *)
(* ===================================================================== *)

Module swisssystems.

(** [enum SwissSystem { BURSTEIN, NONE }]. *)
Inductive SwissSystem : Set := BURSTEIN | NONE.

(** The two exception structures.  Each derives from [std::runtime_error]
    and carries the message given to that base. *)
Inductive exception : Set :=
| NoValidPairingException (message : string)
| UnapplicableFeatureException (message : string).

(** [NoValidPairingException()] : [std::runtime_error("")]. *)
Definition NoValidPairingException_default : exception :=
  NoValidPairingException EmptyString.

(** The C string behind a [std::string]: the characters before the first
    NUL. *)
Fixpoint c_str (s : string) : string :=
  match s with
  | EmptyString => EmptyString
  | String c r =>
      if Ascii.eqb c Ascii.zero then EmptyString else String c (c_str r)
  end.

(** Whether a message holds no NUL. *)
Fixpoint nul_free (s : string) : bool :=
  match s with
  | EmptyString => true
  | String c r => negb (Ascii.eqb c Ascii.zero) && nul_free r
  end.

(** [std::runtime_error::what]: a [const char *] into the message the
    exception was built with, read as a C string. *)
Definition what (e : exception) : string :=
  match e with
  | NoValidPairingException m => c_str m
  | UnapplicableFeatureException m => c_str m
  end.

(** Whether a message holds a given phrase. *)
Definition mentions (phrase message : string) : bool :=
  match index 0 phrase message with
  | Some _ => true
  | None => false
  end.

(** The classes a handler can name: the two of this header and their
    bases, [std::runtime_error] and its base [std::exception]. *)
Inductive exception_class : Set :=
| class_exception
| class_runtime_error
| class_NoValidPairingException
| class_UnapplicableFeatureException.

Definition class_of (e : exception) : exception_class :=
  match e with
  | NoValidPairingException _ => class_NoValidPairingException
  | UnapplicableFeatureException _ => class_UnapplicableFeatureException
  end.

(** [derives_from d b]: class [d] is [b] or publicly derives from it.  Both
    structures derive from [std::runtime_error], which derives from
    [std::exception], and from nothing else of this header. *)
Definition derives_from (d b : exception_class) : bool :=
  match d, b with
  | _, class_exception => true
  | class_exception, _ => false
  | _, class_runtime_error => true
  | class_NoValidPairingException, class_NoValidPairingException => true
  | class_UnapplicableFeatureException,
    class_UnapplicableFeatureException => true
  | _, _ => false
  end.

(** [catch (const handler &)] takes the thrown object [e]. *)
Definition catches (handler : exception_class) (e : exception) : bool :=
  derives_from (class_of e) handler.

(** The outcome of a call that may throw. *)
Inductive outcome (A : Type) : Type :=
| Returned (a : A)
| Thrown (e : exception).
Arguments Returned {A} a.
Arguments Thrown {A} e.

(** A call on a mutable [Tournament &]: the state after the call, and the
    outcome. *)
Definition stateful (S A : Type) : Type := S -> S * outcome A.

Definition ret {S A : Type} (a : A) : stateful S A :=
  fun s => (s, Returned a).

Definition throw {S A : Type} (e : exception) : stateful S A :=
  fun s => (s, Thrown e).

Definition bind {S A B : Type}
    (c : stateful S A) (k : A -> stateful S B) : stateful S B :=
  fun s =>
    match c s with
    | (s', Returned a) => k a s'
    | (s', Thrown e) => (s', Thrown e)
    end.

Definition modify {S : Type} (f : S -> S) : stateful S unit :=
  fun s => (f s, Returned tt).

(* --------------------------------------------------------------------- *)
(** ** Pairing                                                            *)
(* --------------------------------------------------------------------- *)

Record Pairing : Set := mkPairing
  { white : player_index;
    black : player_index }.

(** [Pairing(white_, black_)]. *)
Definition Pairing2 (white_ black_ : player_index) : Pairing :=
  {| white := white_; black := black_ |}.

(** [Pairing(player0, player1, player0color)]. *)
Definition Pairing3
    (player0 player1 : player_index) (player0color : Color) : Pairing :=
  {| white :=
       if Color_eqb player0color COLOR_WHITE then player0 else player1;
     black :=
       if Color_eqb player0color COLOR_WHITE then player1 else player0 |}.

(** The two members of a pairing, white first. *)
Definition members (p : Pairing) : list player_index :=
  [white p; black p].

(* --------------------------------------------------------------------- *)
(** ** Info                                                               *)
(* --------------------------------------------------------------------- *)

Section Info.

(** The interface is generic in [tournament::Tournament].  [ostream] is
    the text sent to the optional diagnostic sink. *)
Variable Tournament : Type.

Definition ostream := list string.

(** The message of the default [updateAccelerations]. *)
Definition no_default_acceleration_message : string :=
  "The selected Swiss system does not have a default acceleration system."%string.

(** The body of [Info::updateAccelerations]: a single [throw]. *)
Definition Info_updateAccelerations : stateful Tournament unit :=
  throw (UnapplicableFeatureException no_default_acceleration_message).

(** A class derived from [Info].  It has to define the pure virtual
    [computeMatching]; it may override [updateAccelerations] (a variant
    with a default acceleration system does) or inherit the one of
    [Info]. *)
Record Info : Type := mkInfo
  { computeMatching :
      Tournament -> option ostream ->
      outcome (list Pairing) * option ostream;
    updateAccelerations_override : option (stateful Tournament unit) }.

(** Virtual dispatch of [info.updateAccelerations(tournament)]. *)
Definition updateAccelerations (info : Info) : stateful Tournament unit :=
  match updateAccelerations_override info with
  | Some f => f
  | None => Info_updateAccelerations
  end.

End Info.

(* --------------------------------------------------------------------- *)
(** ** colorPreferencesAreCompatible                                      *)
(* --------------------------------------------------------------------- *)

Definition colorPreferencesAreCompatible
    (preference0 preference1 : Color) : bool :=
  negb (Color_eqb preference0 preference1)
  || Color_eqb preference0 COLOR_NONE
  || Color_eqb preference1 COLOR_NONE.

(* --------------------------------------------------------------------- *)
(** ** findFirstColorDifference (declared only)                           *)
(* --------------------------------------------------------------------- *)

(** Modelled from the spec: the lock-step scan of
    [findFirstColorDifference], whose body is missing.  Both histories are
    given most recent round first.  The spec: "returns the first round at
    which the two histories diverge in color, expressed as the color each
    player had in that round (NONE if the scan exhausts one player's
    shorter history without divergence)". *)
Fixpoint scanBackward (h0 h1 : list Color) : Color * Color :=
  match h0, h1 with
  | c0 :: r0, c1 :: r1 =>
      if Color_eqb c0 c1 then scanBackward r0 r1 else (c0, c1)
  | _, _ => (COLOR_NONE, COLOR_NONE)
  end.

(** Modelled from the spec: [findFirstColorDifference], declared in
    common.h, body missing.  It "scans each player's round-by-round color
    history from the most recent round backward".  The pair returned holds
    the values left in the two [Color &] parameters. *)
Definition findFirstColorDifference
    (player0 player1 : Player) : Color * Color :=
  scanBackward (rev (colorHistory player0)) (rev (colorHistory player1)).

(* --------------------------------------------------------------------- *)
(** ** The Result Orderer and sortResults (declared only)                 *)
(* --------------------------------------------------------------------- *)

Section ResultOrderer.

(** The orderer ranks pairings and players alike: the entity, its board
    score and its rank are what it is given. *)
Variable E : Type.
Variable boardScore : E -> nat.
Variable rankOf : E -> nat.

(** Modelled from the spec: the comparison of the Result Orderer, whose
    code is missing: "primary key = board number (assigned by descending
    combined score of the pairing, or player score for individual
    ranking), secondary key = a stable pre-existing rank/index". *)
Definition precedes (a b : E) : bool :=
  (boardScore b <? boardScore a)
  || ((boardScore a =? boardScore b) && (rankOf a <? rankOf b)).

(** Modelled from the spec: the sort behind [sortResults], whose body is
    missing.  It is stable, as [std::list::sort] is: an entry goes in
    front of the first one that does not precede it. *)
Fixpoint insertOrdered (x : E) (l : list E) : list E :=
  match l with
  | [] => [x]
  | y :: l' =>
      if precedes y x then y :: insertOrdered x l' else x :: y :: l'
  end.

(** Modelled from the spec: the sort itself, entry by entry. *)
Fixpoint sortOrdered (l : list E) : list E :=
  match l with
  | [] => []
  | x :: l' => insertOrdered x (sortOrdered l')
  end.

(** Modelled from the spec: "incomparability"; two entries tie when
    neither precedes the other. *)
Definition incomparable (a b : E) : Prop :=
  precedes a b = false /\ precedes b a = false.

(** Modelled from the spec: an "already-sorted sequence"; no entry
    precedes the one before it. *)
Definition inOrder (l : list E) : Prop :=
  Sorted (fun a b => precedes b a = false) l.

End ResultOrderer.

(** Modelled from the spec: the score the partitioner and the orderer
    read, the "(accelerated) score". *)
Definition acceleratedScore (t : Tournament) (i : player_index) : nat :=
  score (player t i) + acceleration (player t i).

(** Modelled from the spec: the "stable pre-existing rank" of a
    player. *)
Definition playerRank (t : Tournament) (i : player_index) : nat :=
  rank (player t i).

(** Modelled from the spec: the keys of a pairing for the Result Orderer.
    The board score is the "combined score of the pairing"; the rank is
    the better rank of its two players. *)
Definition combinedScore (t : Tournament) (p : Pairing) : nat :=
  acceleratedScore t (white p) + acceleratedScore t (black p).

(** Modelled from the spec: the secondary key of a pairing. *)
Definition pairingRank (t : Tournament) (p : Pairing) : nat :=
  Nat.min (playerRank t (white p)) (playerRank t (black p)).

(** Modelled from the spec: the comparison [sortResults] sorts by. *)
Definition pairingPrecedes (t : Tournament) : Pairing -> Pairing -> bool :=
  precedes (combinedScore t) (pairingRank t).

(** Modelled from the spec: [sortResults], declared in common.h, body
    missing.  The list returned is the content of the [std::list<Pairing> &]
    parameter after the call. *)
Definition sortResults
    (pairs : list Pairing) (t : Tournament) : list Pairing :=
  sortOrdered (combinedScore t) (pairingRank t) pairs.

End swisssystems.

Import swisssystems.

(* ===================================================================== *)
(** * Sample data                                                         *)
(* ===================================================================== *)

Module samples.

Definition newcomer (sc rk : nat) : Player :=
  {| score := sc; acceleration := 0; history := []; byes := 0;
     dueColor := COLOR_NONE; active := true; rank := rk |}.

(** Four players in two score groups, no game played yet. *)
Definition fourPlayers : Tournament :=
  {| players := [newcomer 3 0; newcomer 3 1; newcomer 1 2; newcomer 1 3] |}.

(** An odd number of players, the leader alone in the top group. *)
Definition threePlayers : Tournament :=
  {| players := [newcomer 2 0; newcomer 1 1; newcomer 1 2] |}.

Definition played (opp : player_index) (c : Color) (r : GameResult) : Game :=
  {| opponent := opp; color := c; result := r |}.

(** A player who had white, then black. *)
Definition whiteThenBlack : Player :=
  {| score := 2; acceleration := 0;
     history := [played 1 COLOR_WHITE RESULT_WIN;
                 played 2 COLOR_BLACK RESULT_WIN];
     byes := 0; dueColor := COLOR_WHITE; active := true; rank := 0 |}.

(** A player who had black twice. *)
Definition blackTwice : Player :=
  {| score := 1; acceleration := 0;
     history := [played 3 COLOR_BLACK RESULT_DRAW;
                 played 0 COLOR_BLACK RESULT_DRAW];
     byes := 0; dueColor := COLOR_WHITE; active := true; rank := 1 |}.

(** A variant that inherits [updateAccelerations] from [Info]; its
    [computeMatching] finds no pairing, whatever the tournament. *)
Definition plainInfo : Info Tournament :=
  {| computeMatching := fun _ os =>
       (Thrown NoValidPairingException_default, os);
     updateAccelerations_override := None |}.

(** One more point of bonus for every player. *)
Definition accelerate (t : Tournament) : Tournament :=
  {| players :=
       map (fun p =>
              {| score := score p; acceleration := S (acceleration p);
                 history := history p; byes := byes p;
                 dueColor := dueColor p; active := active p;
                 rank := rank p |})
           (players t) |}.

(** A variant that overrides [updateAccelerations]. *)
Definition acceleratedInfo : Info Tournament :=
  {| computeMatching := computeMatching plainInfo;
     updateAccelerations_override :=
       Some (bind (modify accelerate) (fun _ => ret tt)) |}.

End samples.

(* ===================================================================== *)
(** * Theorems: colors and color preferences                              *)
(* ===================================================================== *)

Lemma Color_eqb_spec (a b : Color) : reflect (a = b) (Color_eqb a b).
Proof. destruct a, b; constructor; congruence. Qed.

Lemma Color_eqb_refl (a : Color) : Color_eqb a a = true.
Proof. now destruct a. Qed.

Lemma Color_eqb_neq (a b : Color) : a <> b -> Color_eqb a b = false.
Proof. destruct (Color_eqb_spec a b); congruence. Qed.

Lemma colorPreferencesAreCompatible_symmetric (a b : Color) :
  colorPreferencesAreCompatible a b = colorPreferencesAreCompatible b a.
Proof. now destruct a, b. Qed.

(** C2. [colorPreferencesAreCompatible a b] is true if and only if [a] and
    [b] are not the same concrete (non-NONE) color; it is false exactly
    when [a = b] and [a] is WHITE or BLACK.  The function is a total
    function of its two arguments and of nothing else. *)
Theorem colorPreferencesAreCompatible_iff (a b : Color) :
  (colorPreferencesAreCompatible a b = true
   <-> ~ (a = b /\ a <> COLOR_NONE))
  /\ (colorPreferencesAreCompatible a b = false
      <-> a = b /\ (a = COLOR_WHITE \/ a = COLOR_BLACK)).
Proof.
  destruct a, b; cbn; intuition congruence.
Qed.

(** C3. [colorPreferencesAreCompatible] is symmetric, and it is true as
    soon as one of its arguments is NONE (NONE with NONE included). *)
Theorem colorPreferencesAreCompatible_sym_none (a b : Color) :
  colorPreferencesAreCompatible a b = colorPreferencesAreCompatible b a
  /\ colorPreferencesAreCompatible COLOR_NONE b = true
  /\ colorPreferencesAreCompatible a COLOR_NONE = true.
Proof.
  split; [apply colorPreferencesAreCompatible_symmetric |].
  now destruct a, b.
Qed.

(* ===================================================================== *)
(** * Theorems: the Pairing constructors                                  *)
(* ===================================================================== *)

Lemma Pairing3_white (p0 p1 : player_index) :
  Pairing3 p0 p1 COLOR_WHITE = Pairing2 p0 p1.
Proof. reflexivity. Qed.

Lemma Pairing3_not_white (p0 p1 : player_index) (c : Color) :
  c <> COLOR_WHITE -> Pairing3 p0 p1 c = Pairing2 p1 p0.
Proof.
  intros Hc. unfold Pairing3. now rewrite (Color_eqb_neq Hc).
Qed.

(** The three-argument constructor keeps both players, whatever the
    color. *)
Lemma members_Pairing3 (p0 p1 : player_index) (c : Color) :
  Permutation (members (Pairing3 p0 p1 c)) [p0; p1].
Proof.
  destruct c; cbn; solve [apply Permutation_refl | apply perm_swap].
Qed.

(** C5. The three-argument constructor gives player0 the reference
    color: with WHITE, white is player0 and black is player1; with BLACK,
    white is player1 and black is player0. *)
Theorem Pairing3_resolves_reference_color (p0 p1 : player_index) :
  (white (Pairing3 p0 p1 COLOR_WHITE) = p0
   /\ black (Pairing3 p0 p1 COLOR_WHITE) = p1)
  /\ (white (Pairing3 p0 p1 COLOR_BLACK) = p1
      /\ black (Pairing3 p0 p1 COLOR_BLACK) = p0).
Proof. repeat split. Qed.

(** C9. With the reference color NONE the three-argument constructor sets
    white to player1 and black to player0, as it does for BLACK: NONE is
    neither rejected nor told apart. *)
Theorem Pairing3_none_as_black (p0 p1 : player_index) :
  white (Pairing3 p0 p1 COLOR_NONE) = p1
  /\ black (Pairing3 p0 p1 COLOR_NONE) = p0
  /\ Pairing3 p0 p1 COLOR_NONE = Pairing3 p0 p1 COLOR_BLACK.
Proof. repeat split. Qed.

(** C6, as stated, fails: both constructors accept the same handle
    twice, and the pairing they build has white = black. *)
Lemma Pairing_of_one_player :
  white (Pairing2 5 5) = black (Pairing2 5 5)
  /\ white (Pairing3 5 5 COLOR_WHITE) = black (Pairing3 5 5 COLOR_WHITE).
Proof. split; reflexivity. Qed.

(** C6, amended.  The constructors check nothing: the pairing built has
    white <> black exactly when the two handles given differ, for the
    two-argument constructor and for the three-argument one at every
    reference color. *)
Theorem Pairing_distinct_iff (p0 p1 : player_index) (c : Color) :
  (white (Pairing2 p0 p1) <> black (Pairing2 p0 p1) <-> p0 <> p1)
  /\ (white (Pairing3 p0 p1 c) <> black (Pairing3 p0 p1 c) <-> p0 <> p1).
Proof.
  split; [reflexivity |].
  unfold Pairing3; destruct (Color_eqb c COLOR_WHITE); cbn;
    split; intros H E; apply H; congruence.
Qed.

Lemma Pairing_distinct_iff_witness :
  1 <> 2
  /\ white (Pairing3 1 2 COLOR_NONE) <> black (Pairing3 1 2 COLOR_NONE).
Proof.
  split; [discriminate |].
  apply (proj2 (proj2 (Pairing_distinct_iff 1 2 COLOR_NONE))).
  discriminate.
Defined.

(* ===================================================================== *)
(** * Theorems: exceptions and the default updateAccelerations            *)
(* ===================================================================== *)

Section Acceleration.

Variable T : Type.

(** A variant that does not override [updateAccelerations] runs the body
    of [Info]. *)
Lemma updateAccelerations_inherited (info : Info T) :
  updateAccelerations_override info = None ->
  updateAccelerations info = Info_updateAccelerations (Tournament := T).
Proof. unfold updateAccelerations. now intros ->. Qed.

(** The body of [Info] throws at once, in the state it was called in. *)
Lemma Info_updateAccelerations_run (t : T) :
  Info_updateAccelerations t
  = (t, Thrown (UnapplicableFeatureException
                  no_default_acceleration_message)).
Proof. reflexivity. Qed.

End Acceleration.

(** An exception of this header is taken by exactly one of the two
    handlers [catch (NoValidPairingException &)] and
    [catch (UnapplicableFeatureException &)]. *)
Lemma handlers_disjoint (e : exception) :
  catches class_NoValidPairingException e
  = negb (catches class_UnapplicableFeatureException e).
Proof. now destruct e. Qed.

(** Both are runtime errors: a handler for [std::runtime_error] takes
    either. *)
Lemma runtime_error_catches_all (e : exception) :
  catches class_runtime_error e = true.
Proof. now destruct e. Qed.

(** C4. On a variant whose Info defines no default acceleration policy,
    [updateAccelerations] throws [UnapplicableFeatureException]; the
    message names the missing capability, the default acceleration
    system; the exception is never a [NoValidPairingException], and the
    two kinds are told apart by their handlers. *)
Theorem updateAccelerations_unsupported
    (T : Type) (info : Info T) (t : T) :
  updateAccelerations_override info = None ->
  snd (updateAccelerations info t)
  = Thrown (UnapplicableFeatureException no_default_acceleration_message)
  /\ mentions "default acceleration system"
       (what (UnapplicableFeatureException no_default_acceleration_message))
     = true
  /\ (forall m,
        snd (updateAccelerations info t)
        <> Thrown (NoValidPairingException m))
  /\ catches class_UnapplicableFeatureException
       (UnapplicableFeatureException no_default_acceleration_message) = true
  /\ catches class_NoValidPairingException
       (UnapplicableFeatureException no_default_acceleration_message) = false
  /\ (forall e,
        catches class_NoValidPairingException e
        = negb (catches class_UnapplicableFeatureException e))
  /\ (forall m m',
        NoValidPairingException m <> UnapplicableFeatureException m').
Proof.
  intros Hnone. rewrite (updateAccelerations_inherited info Hnone).
  rewrite Info_updateAccelerations_run. cbn [snd].
  repeat split; try reflexivity; try discriminate.
  apply handlers_disjoint.
Qed.

Lemma updateAccelerations_unsupported_witness :
  updateAccelerations_override samples.plainInfo = None
  /\ snd (updateAccelerations samples.plainInfo samples.fourPlayers)
     = Thrown (UnapplicableFeatureException no_default_acceleration_message).
Proof.
  split; [reflexivity |].
  apply (@updateAccelerations_unsupported
           Tournament samples.plainInfo samples.fourPlayers).
  reflexivity.
Defined.

(** C10. The default [updateAccelerations] throws before it changes
    anything: when a variant without an override is called on a
    tournament, the tournament after the call is the tournament before
    it, and the outcome is the unsupported-capability exception. *)
Theorem updateAccelerations_default_atomic
    (T : Type) (info : Info T) (t t' : T) (o : outcome unit) :
  updateAccelerations_override info = None ->
  updateAccelerations info t = (t', o) ->
  t' = t
  /\ o = Thrown (UnapplicableFeatureException
                   no_default_acceleration_message).
Proof.
  intros Hnone. rewrite (updateAccelerations_inherited info Hnone).
  rewrite Info_updateAccelerations_run. intros [= <- <-]. now split.
Qed.

Lemma updateAccelerations_default_atomic_witness :
  updateAccelerations_override samples.plainInfo = None
  /\ fst (updateAccelerations samples.plainInfo samples.threePlayers)
     = samples.threePlayers.
Proof.
  split; [reflexivity |].
  apply (@updateAccelerations_default_atomic
           Tournament samples.plainInfo samples.threePlayers
           (fst (updateAccelerations samples.plainInfo samples.threePlayers))
           (snd (updateAccelerations
                   samples.plainInfo samples.threePlayers))).
  - reflexivity.
  - reflexivity.
Defined.

(** An overriding variant is free to change the tournament: the sample
    one adds a point of bonus and returns. *)
Example acceleratedInfo_updates :
  updateAccelerations samples.acceleratedInfo samples.threePlayers
  = (samples.accelerate samples.threePlayers, Returned tt)
  /\ samples.accelerate samples.threePlayers <> samples.threePlayers.
Proof. split; [reflexivity | discriminate]. Qed.

(* ===================================================================== *)
(** * Theorems: findFirstColorDifference                                  *)
(* ===================================================================== *)

Lemma scanBackward_same (h : list Color) :
  scanBackward h h = (COLOR_NONE, COLOR_NONE).
Proof.
  induction h as [| c h IH]; cbn; [reflexivity |].
  now rewrite Color_eqb_refl.
Qed.

(** The scan walks through the rounds on which the players agree and
    stops at the first one on which they do not. *)
Lemma scanBackward_divergence (recent r0 r1 : list Color) (a b : Color) :
  a <> b ->
  scanBackward (recent ++ a :: r0) (recent ++ b :: r1) = (a, b).
Proof.
  intros Hab. induction recent as [| c recent IH]; cbn.
  - now rewrite (Color_eqb_neq Hab).
  - now rewrite Color_eqb_refl.
Qed.

(** One history runs out while the players still agree. *)
Lemma scanBackward_exhausted (recent r0 : list Color) :
  scanBackward (recent ++ r0) recent = (COLOR_NONE, COLOR_NONE)
  /\ scanBackward recent (recent ++ r0) = (COLOR_NONE, COLOR_NONE).
Proof.
  induction recent as [| c recent [IH0 IH1]]; cbn.
  - split; [now destruct r0 | reflexivity].
  - now rewrite Color_eqb_refl.
Qed.

(** C7. On two identical color histories [findFirstColorDifference]
    leaves NONE in both colors.  On two histories that differ at the
    earliest round only, it gives the colors of that round.  In general
    the scan starts at the most recent round, goes through the rounds on
    which the histories agree, and gives the colors of the first round it
    meets on which they differ, however far back that round is; when the
    shorter history runs out first, both colors are NONE. *)
Theorem findFirstColorDifference_scan (player0 player1 : Player) :
  (colorHistory player0 = colorHistory player1 ->
   findFirstColorDifference player0 player1 = (COLOR_NONE, COLOR_NONE))
  /\ (forall a b later,
        a <> b ->
        colorHistory player0 = a :: later ->
        colorHistory player1 = b :: later ->
        findFirstColorDifference player0 player1 = (a, b))
  /\ (forall a b earlier0 earlier1 later,
        a <> b ->
        colorHistory player0 = earlier0 ++ a :: later ->
        colorHistory player1 = earlier1 ++ b :: later ->
        findFirstColorDifference player0 player1 = (a, b))
  /\ (forall earlier,
        colorHistory player0 = earlier ++ colorHistory player1
        \/ colorHistory player1 = earlier ++ colorHistory player0 ->
        findFirstColorDifference player0 player1
        = (COLOR_NONE, COLOR_NONE)).
Proof.
  unfold findFirstColorDifference.
  assert (General : forall a b earlier0 earlier1 later,
             a <> b ->
             colorHistory player0 = earlier0 ++ a :: later ->
             colorHistory player1 = earlier1 ++ b :: later ->
             scanBackward (rev (colorHistory player0))
                          (rev (colorHistory player1)) = (a, b)).
  { intros a b e0 e1 later Hab -> ->.
    rewrite !rev_app_distr. cbn [rev]. rewrite <- !app_assoc. cbn [app].
    now apply scanBackward_divergence. }
  repeat split.
  - intros ->. apply scanBackward_same.
  - intros a b later Hab H0 H1.
    now apply (General a b [] [] later).
  - exact General.
  - intros earlier [-> | ->]; rewrite rev_app_distr;
      apply scanBackward_exhausted.
Qed.

Lemma findFirstColorDifference_scan_witness :
  COLOR_WHITE <> COLOR_BLACK
  /\ colorHistory samples.whiteThenBlack = COLOR_WHITE :: [COLOR_BLACK]
  /\ colorHistory samples.blackTwice = COLOR_BLACK :: [COLOR_BLACK]
  /\ findFirstColorDifference samples.whiteThenBlack samples.blackTwice
     = (COLOR_WHITE, COLOR_BLACK).
Proof.
  split; [discriminate | split; [reflexivity | split; [reflexivity |]]].
  apply (proj1 (proj2 (findFirstColorDifference_scan
                         samples.whiteThenBlack samples.blackTwice))
           COLOR_WHITE COLOR_BLACK [COLOR_BLACK]).
  - discriminate.
  - reflexivity.
  - reflexivity.
Defined.

(** The scan goes past the last round, where both had black, and stops at
    the first round; run the other way round it gives the colors the
    other way round. *)
Example findFirstColorDifference_run :
  findFirstColorDifference samples.blackTwice samples.whiteThenBlack
  = (COLOR_BLACK, COLOR_WHITE)
  /\ findFirstColorDifference samples.blackTwice samples.blackTwice
     = (COLOR_NONE, COLOR_NONE).
Proof. split; reflexivity. Qed.

(* ===================================================================== *)
(** * Theorems: the Result Orderer and sortResults                        *)
(* ===================================================================== *)

Section ResultOrdererFacts.

Variable E : Type.
Variable boardScore : E -> nat.
Variable rankOf : E -> nat.

Local Abbreviation before := (precedes boardScore rankOf).
Local Abbreviation tie := (incomparable boardScore rankOf).
Local Abbreviation ordered := (inOrder boardScore rankOf).
Local Abbreviation insertion := (insertOrdered boardScore rankOf).
Local Abbreviation sorting := (sortOrdered boardScore rankOf).

(** [before a b] says that the keys of [a] come first in the
    lexicographic order: higher score, or same score and lower rank. *)
Lemma precedes_true (a b : E) :
  before a b = true
  <-> boardScore b < boardScore a
      \/ (boardScore a = boardScore b /\ rankOf a < rankOf b).
Proof.
  unfold precedes.
  rewrite orb_true_iff, andb_true_iff, !Nat.ltb_lt, Nat.eqb_eq.
  reflexivity.
Qed.

Lemma precedes_false (a b : E) :
  before a b = false
  <-> boardScore a <= boardScore b
      /\ (boardScore a = boardScore b -> rankOf b <= rankOf a).
Proof.
  rewrite <- not_true_iff_false, precedes_true. lia.
Qed.

Lemma tie_keys (a b : E) :
  tie a b <-> boardScore a = boardScore b /\ rankOf a = rankOf b.
Proof.
  unfold incomparable. rewrite !precedes_false. lia.
Qed.

Lemma precedes_irrefl (a : E) : before a a = false.
Proof. apply precedes_false. lia. Qed.

Lemma precedes_asym (a b : E) : before a b = true -> before b a = false.
Proof. rewrite precedes_true, precedes_false. lia. Qed.

Lemma precedes_trans (a b c : E) :
  before a b = true -> before b c = true -> before a c = true.
Proof. rewrite !precedes_true. lia. Qed.

Lemma tie_trans (a b c : E) : tie a b -> tie b c -> tie a c.
Proof. rewrite !tie_keys. lia. Qed.

(** Entries that do not precede one another form a chain. *)
Lemma not_precedes_trans (a b c : E) :
  before b a = false -> before c b = false -> before c a = false.
Proof. rewrite !precedes_false. lia. Qed.

Lemma insertOrdered_perm (x : E) (l : list E) :
  Permutation (insertion x l) (x :: l).
Proof.
  induction l as [| y l IH]; cbn; [reflexivity |].
  destruct (before y x); [| reflexivity].
  rewrite IH. apply perm_swap.
Qed.

Lemma sortOrdered_perm (l : list E) : Permutation (sorting l) l.
Proof.
  induction l as [| x l IH]; cbn; [reflexivity |].
  rewrite insertOrdered_perm. now apply perm_skip.
Qed.

Lemma insertOrdered_head (x y : E) (l : list E) :
  before x y = false ->
  HdRel (fun a b => before b a = false) y l ->
  HdRel (fun a b => before b a = false) y (insertion x l).
Proof.
  intros Hxy Hl. destruct l as [| z l]; cbn.
  - now constructor.
  - destruct (before z x); constructor; [| assumption].
    now inversion Hl.
Qed.

Lemma insertOrdered_inOrder (x : E) (l : list E) :
  ordered l -> ordered (insertion x l).
Proof.
  unfold inOrder. induction 1 as [| y l Hl IH Hy]; cbn.
  - repeat constructor.
  - destruct (before y x) eqn:Hyx.
    + constructor; [assumption |].
      apply insertOrdered_head; [| assumption].
      now apply precedes_asym.
    + repeat constructor; assumption.
Qed.

Lemma sortOrdered_inOrder (l : list E) : ordered (sorting l).
Proof.
  induction l as [| x l IH]; cbn.
  - constructor.
  - now apply insertOrdered_inOrder.
Qed.

(** Sorting a sequence that is in order already changes nothing: the
    sort is stable, so ties stay where they are. *)
Lemma sortOrdered_fixes_inOrder (l : list E) : ordered l -> sorting l = l.
Proof.
  unfold inOrder. induction 1 as [| x l Hl IH Hx]; cbn; [reflexivity |].
  rewrite IH. destruct Hx as [| y l' Hyx]; cbn; [reflexivity |].
  now rewrite Hyx.
Qed.

Lemma sortOrdered_idempotent (l : list E) :
  sorting (sorting l) = sorting l.
Proof. apply sortOrdered_fixes_inOrder, sortOrdered_inOrder. Qed.

End ResultOrdererFacts.

(** C8. The comparison [sortResults] sorts by is a strict weak ordering:
    irreflexive, transitive, and with transitive incomparability.
    Sorting is idempotent: [sortResults] returns a list that is in order
    already as it is; what it returns is a rearrangement of the list that
    is in order, and so sorting twice is sorting once. *)
Theorem sortResults_strict_weak_order (t : Tournament) :
  (forall a, pairingPrecedes t a a = false)
  /\ (forall a b c,
        pairingPrecedes t a b = true ->
        pairingPrecedes t b c = true ->
        pairingPrecedes t a c = true)
  /\ (forall a b c,
        incomparable (combinedScore t) (pairingRank t) a b ->
        incomparable (combinedScore t) (pairingRank t) b c ->
        incomparable (combinedScore t) (pairingRank t) a c)
  /\ (forall pairs,
        inOrder (combinedScore t) (pairingRank t) pairs ->
        sortResults pairs t = pairs)
  /\ (forall pairs,
        Permutation (sortResults pairs t) pairs
        /\ inOrder (combinedScore t) (pairingRank t) (sortResults pairs t)
        /\ sortResults (sortResults pairs t) t = sortResults pairs t).
Proof.
  unfold pairingPrecedes, sortResults.
  split; [| split; [| split; [| split]]].
  - intros a. apply precedes_irrefl.
  - intros a b c. apply precedes_trans.
  - intros a b c. apply tie_trans.
  - intros pairs. apply sortOrdered_fixes_inOrder.
  - intros pairs. split; [| split].
    + apply sortOrdered_perm.
    + apply sortOrdered_inOrder.
    + apply sortOrdered_idempotent.
Qed.

Lemma sortResults_strict_weak_order_witness :
  inOrder (combinedScore samples.fourPlayers)
          (pairingRank samples.fourPlayers)
          [Pairing2 0 1; Pairing2 3 2]
  /\ sortResults [Pairing2 0 1; Pairing2 3 2] samples.fourPlayers
     = [Pairing2 0 1; Pairing2 3 2].
Proof.
  assert (H : inOrder (combinedScore samples.fourPlayers)
                      (pairingRank samples.fourPlayers)
                      [Pairing2 0 1; Pairing2 3 2]).
  { repeat constructor. }
  split; [exact H |].
  exact (proj1 (proj2 (proj2 (proj2
           (sortResults_strict_weak_order samples.fourPlayers)))) _ H).
Defined.

(** The board of the leaders comes first, whatever the order given. *)
Example sortResults_run :
  sortResults [Pairing2 3 2; Pairing2 0 1] samples.fourPlayers
  = [Pairing2 0 1; Pairing2 3 2].
Proof. reflexivity. Qed.

(* ===================================================================== *)
(** * Further properties of common.h                                      *)
(* ===================================================================== *)

(** X1. Two preferences are compatible exactly when the two colors of a
    game can be handed out so that every player who states a preference
    gets it: there are two different concrete colors, one per player,
    and each preference is NONE or the color handed to that player. *)
Theorem colorPreferencesAreCompatible_assignable (a b : Color) :
  colorPreferencesAreCompatible a b = true
  <-> exists c0 c1 : Color,
        c0 <> COLOR_NONE /\ c1 <> COLOR_NONE /\ c0 <> c1
        /\ (a = COLOR_NONE \/ a = c0)
        /\ (b = COLOR_NONE \/ b = c1).
Proof.
  split.
  - intros H.
    destruct a, b; try discriminate H;
      first
        [ exists COLOR_WHITE, COLOR_BLACK;
          repeat split; solve [discriminate | auto]
        | exists COLOR_BLACK, COLOR_WHITE;
          repeat split; solve [discriminate | auto] ].
  - intros (c0 & c1 & H0 & H1 & H01 & Ha & Hb).
    destruct a, b; try reflexivity; exfalso;
      destruct Ha as [Ha | Ha], Hb as [Hb | Hb]; congruence.
Qed.

(** X2. Compatibility is no equivalence of preferences.  A color is
    compatible with itself only when it is NONE; between two concrete
    colors, compatible means different; and the relation is not
    transitive, since NONE sits between any two equal colors. *)
Theorem colorPreferencesAreCompatible_no_equivalence :
  (forall a, colorPreferencesAreCompatible a a = true <-> a = COLOR_NONE)
  /\ (forall a b,
        a <> COLOR_NONE -> b <> COLOR_NONE ->
        (colorPreferencesAreCompatible a b = true <-> a <> b))
  /\ (forall a,
        a <> COLOR_NONE ->
        colorPreferencesAreCompatible a COLOR_NONE = true
        /\ colorPreferencesAreCompatible COLOR_NONE a = true
        /\ colorPreferencesAreCompatible a a = false)
  /\ ~ (forall a b c,
          colorPreferencesAreCompatible a b = true ->
          colorPreferencesAreCompatible b c = true ->
          colorPreferencesAreCompatible a c = true).
Proof.
  split; [| split; [| split]].
  - intros a. destruct a; cbn; intuition congruence.
  - intros a b Ha Hb. destruct a, b; cbn; intuition congruence.
  - intros a Ha. destruct a; cbn; intuition congruence.
  - intros H.
    specialize (H COLOR_WHITE COLOR_NONE COLOR_WHITE eq_refl eq_refl).
    discriminate H.
Qed.

Lemma colorPreferencesAreCompatible_no_equivalence_witness :
  COLOR_WHITE <> COLOR_NONE
  /\ COLOR_BLACK <> COLOR_NONE
  /\ (colorPreferencesAreCompatible COLOR_WHITE COLOR_BLACK = true
      <-> COLOR_WHITE <> COLOR_BLACK).
Proof.
  assert (Hw : COLOR_WHITE <> COLOR_NONE) by discriminate.
  assert (Hb : COLOR_BLACK <> COLOR_NONE) by discriminate.
  split; [exact Hw | split; [exact Hb |]].
  exact (proj1 (proj2 colorPreferencesAreCompatible_no_equivalence)
           COLOR_WHITE COLOR_BLACK Hw Hb).
Defined.

(** X3. The three-argument constructor neither drops nor invents a
    player: white and black of the pairing built are the two players
    given, in the order given or swapped.  It builds what the
    two-argument constructor builds from the players in the order given
    exactly when the reference color is WHITE or the two players are the
    same. *)
Theorem Pairing3_keeps_players (p0 p1 : player_index) (c : Color) :
  Permutation
    [white (Pairing3 p0 p1 c); black (Pairing3 p0 p1 c)] [p0; p1]
  /\ (Pairing3 p0 p1 c = Pairing2 p0 p1
      \/ Pairing3 p0 p1 c = Pairing2 p1 p0)
  /\ (Pairing3 p0 p1 c = Pairing2 p0 p1
      <-> c = COLOR_WHITE \/ p0 = p1).
Proof.
  split; [apply (members_Pairing3 p0 p1 c) | split].
  - destruct c; cbn; auto.
  - destruct c; cbn; unfold Pairing2; split;
      try (intros _; left; reflexivity);
      try (intros [= -> _]; right; reflexivity);
      try (intros [Hc | ->]; [discriminate Hc | reflexivity]);
      intros _; reflexivity.
Qed.

(** X4. With a concrete reference color it does not matter whose color
    is given: white for player0 is black for player1, and the pairing
    built is the same.  With NONE it does: the second player given gets
    white, so the two orders build mirror images, the same pairing only
    when the two players are the same. *)
Theorem Pairing3_swap_players (p0 p1 : player_index) :
  Pairing3 p0 p1 COLOR_WHITE = Pairing3 p1 p0 COLOR_BLACK
  /\ Pairing3 p0 p1 COLOR_BLACK = Pairing3 p1 p0 COLOR_WHITE
  /\ white (Pairing3 p0 p1 COLOR_NONE) = black (Pairing3 p1 p0 COLOR_NONE)
  /\ black (Pairing3 p0 p1 COLOR_NONE) = white (Pairing3 p1 p0 COLOR_NONE)
  /\ (Pairing3 p0 p1 COLOR_NONE = Pairing3 p1 p0 COLOR_NONE <-> p0 = p1).
Proof.
  repeat split.
  - now intros [= ->].
  - now intros ->.
Qed.

(** X5. The constructor and the compatibility check fit together.  When
    both players have a concrete preference and the preferences are
    compatible, the pairing built from the first player's preference
    is the pairing built from the second player's preference: both get
    what they prefer.  When the preferences are not compatible and the
    players differ, the two pairings differ. *)
Theorem Pairing3_serves_compatible_preferences
    (p0 p1 : player_index) (a b : Color) :
  a <> COLOR_NONE ->
  b <> COLOR_NONE ->
  (colorPreferencesAreCompatible a b = true ->
   Pairing3 p0 p1 a = Pairing3 p1 p0 b)
  /\ (p0 <> p1 ->
      Pairing3 p0 p1 a = Pairing3 p1 p0 b ->
      colorPreferencesAreCompatible a b = true).
Proof.
  intros Ha Hb. destruct a, b; try congruence; cbn; split;
    try reflexivity; try discriminate; intros Hne [= E]; congruence.
Qed.

Lemma Pairing3_serves_compatible_preferences_witness :
  COLOR_BLACK <> COLOR_NONE
  /\ COLOR_WHITE <> COLOR_NONE
  /\ colorPreferencesAreCompatible COLOR_BLACK COLOR_WHITE = true
  /\ Pairing3 4 7 COLOR_BLACK = Pairing3 7 4 COLOR_WHITE.
Proof.
  assert (Hb : COLOR_BLACK <> COLOR_NONE) by discriminate.
  assert (Hw : COLOR_WHITE <> COLOR_NONE) by discriminate.
  split; [exact Hb | split; [exact Hw | split; [reflexivity |]]].
  apply (proj1 (@Pairing3_serves_compatible_preferences
                  4 7 COLOR_BLACK COLOR_WHITE Hb Hw)).
  reflexivity.
Defined.

Lemma c_str_nul_free (m : string) : nul_free m = true -> c_str m = m.
Proof.
  induction m as [| c m IH]; cbn; [reflexivity |].
  destruct (Ascii.eqb c Ascii.zero); cbn; [discriminate |].
  intros H. now rewrite IH.
Qed.

Lemma c_str_cut (m rest : string) :
  c_str (m ++ String Ascii.zero rest) = c_str m.
Proof.
  induction m as [| c m IH]; cbn; [reflexivity |].
  destruct (Ascii.eqb c Ascii.zero); [reflexivity | now rewrite IH].
Qed.

(** X6. Both exceptions are runtime errors and nothing more specific in
    common.  Among the handlers for [std::exception], for
    [std::runtime_error] and for the two classes of this header, an
    exception is taken by the first two and by the handler of its own
    class, never by the handler of the other class.  [what] gives back
    the message the exception was built with when the message holds no
    NUL, and otherwise what comes before its first NUL; it gives the
    empty string for [NoValidPairingException()]. *)
Theorem exceptions_are_runtime_errors (e : exception) :
  catches class_exception e = true
  /\ catches class_runtime_error e = true
  /\ (forall handler,
        catches handler e = true
        <-> handler = class_exception
            \/ handler = class_runtime_error
            \/ handler = class_of e)
  /\ (forall m,
        nul_free m = true ->
        what (NoValidPairingException m) = m
        /\ what (UnapplicableFeatureException m) = m)
  /\ (forall m rest,
        what (NoValidPairingException (m ++ String Ascii.zero rest))
        = what (NoValidPairingException m)
        /\ what (UnapplicableFeatureException (m ++ String Ascii.zero rest))
           = what (UnapplicableFeatureException m))
  /\ what NoValidPairingException_default = EmptyString.
Proof.
  split; [now destruct e | split; [apply runtime_error_catches_all |]].
  split; [| split; [| split]].
  - intros handler. destruct e, handler; cbn; intuition congruence.
  - intros m Hm. cbn. now rewrite (c_str_nul_free m Hm).
  - intros m rest. cbn. now rewrite c_str_cut.
  - reflexivity.
Qed.

Lemma exceptions_are_runtime_errors_witness :
  nul_free "no pairing" = true
  /\ what (NoValidPairingException "no pairing") = "no pairing"%string.
Proof.
  split; [reflexivity |].
  apply (proj1 (proj2 (proj2 (proj2
           (exceptions_are_runtime_errors NoValidPairingException_default))))
           "no pairing"%string).
  reflexivity.
Defined.

(** A message with a NUL inside is read up to the NUL. *)
Example what_stops_at_nul :
  what (UnapplicableFeatureException
          ("ab" ++ String Ascii.zero "cd"))
  = "ab"%string.
Proof. reflexivity. Qed.
